(** * The chat assistant of [main.py]: dispatch, completion client and turn handler

  The script routes one user message either straight to the Sonar
  completion endpoint or first through a web search whose result is
  spliced into the prompt.  This development embeds the script's
  functions and settles the properties stated for them. *)

From Stdlib Require Import ZArith QArith Ascii String List Bool Lia.
From stdpp Require Import base option list strings pretty gmap.

Local Open Scope string_scope.
Local Open Scope list_scope.

(** ** Python strings

  A [str] is embedded as a [string] of ASCII characters. *)

Module PyStr.

(** [c.lower()] for one character: the letters [A-Z] move to [a-z],
    every other character is kept. *)
Definition lower_char (c : ascii) : ascii :=
  let n := N_of_ascii c in
  if ((65 <=? n) && (n <=? 90))%N then ascii_of_N (n + 32) else c.

(** [s.lower()] *)
Fixpoint lower (s : string) : string :=
  match s with
  | EmptyString => EmptyString
  | String c s' => String (lower_char c) (lower s')
  end.

(** [s.startswith(w)] *)
Fixpoint startswith (w s : string) : bool :=
  match w, s with
  | EmptyString, _ => true
  | String _ _, EmptyString => false
  | String a w', String b s' => if Ascii.eqb a b then startswith w' s' else false
  end.

(** [w in s] for two strings: [w] occurs in [s] at some offset. *)
Fixpoint str_in (w s : string) : bool :=
  startswith w s ||
  match s with
  | EmptyString => false
  | String _ s' => str_in w s'
  end.

(** The line feed of a triple-quoted literal. *)
Definition nl : string := String (ascii_of_nat 10) EmptyString.

(** What "the string [s] contains [w]" means, without reference to the
    scan above: [s] splits as a part before, [w] itself, and a part
    after. *)
Definition occurs_in (w s : string) : Prop :=
  exists pre post : string, s = pre +:+ w +:+ post.

End PyStr.

Import PyStr.

(** ** The query classifier (lines 63-65 of [chatbot]) *)

Definition casual_keywords : list string :=
  ["hi"; "hello"; "how are you"; "what's up"; "hey"; "joke"; "python"].

(** [any(word in user_question.lower() for word in casual_keywords)] *)
Definition is_casual (user_question : string) : bool :=
  existsb (fun word => str_in word (lower user_question)) casual_keywords.

(** ** Exceptions and outcomes *)

Inductive exn_class :=
| IndexError | KeyError | TypeError | AttributeError | ValueError
| NotImplementedError | HTTPError | OtherException.

(** A raised exception: its class and the text [str(e)] gives.  Every
    class above derives from [Exception]. *)
Record exn := Exn { exn_cls : exn_class; exn_str : string }.

Inductive outcome (A : Type) :=
| Ok (a : A)
| Raise (e : exn).
Arguments Ok {A} a.
Arguments Raise {A} e.

(** ** Messages

    The values found in a [messages] list: the two langchain message
    classes the script tests for, plain role/content dicts, and anything
    else, kept as the text [str()] returns for it. *)

Inductive message :=
| HumanMessage (content : string)
| AIMessage (content : string)
| DictMsg (d : gmap string string)
| OtherObj (text : string).

(** [{"role": role, "content": content}] *)
Definition role_content (role content : string) : gmap string string :=
  <["content" := content]> {["role" := role]}.

(** [{"role": "user", "content": content}] *)
Definition user_message (content : string) : message :=
  DictMsg (role_content "user" content).

(** [{"role": "assistant", "content": content}] *)
Definition assistant_message (content : string) : message :=
  DictMsg (role_content "assistant" content).

(** ** The world threaded through the script

    List objects live in a store, so that two holders of one list see
    each other's appends.  [trace] records the calls made to the two
    outside services, oldest first; [session_messages] is
    [st.session_state.messages]. *)

Definition loc := nat.

Inductive event :=
| SearchInvoke (query : string)
| SonarCall (prompt : string).

Record world := World {
  heap : gmap loc (list message);
  trace : list event;
  session_messages : list message
}.

(** [class State(TypedDict): messages: ...]: the dict holds a reference
    to its list. *)
Record State := { messages : loc }.

Definition M (A : Type) : Type := world -> outcome A * world.

Definition ret {A} (a : A) : M A := fun w => (Ok a, w).

Definition raise {A} (e : exn) : M A := fun w => (Raise e, w).

Definition bind {A B} (m : M A) (k : A -> M B) : M B :=
  fun w => match m w with
           | (Ok a, w') => k a w'
           | (Raise e, w') => (Raise e, w')
           end.

(** [try: body  except Exception as e: handler(e)] *)
Definition try_except {A} (body : M A) (handler : exn -> M A) : M A :=
  fun w => match body w with
           | (Ok a, w') => (Ok a, w')
           | (Raise e, w') => handler e w'
           end.

Declare Scope py_scope.
Delimit Scope py_scope with py.
Notation "x <- m ;; k" := (bind m (fun x => k))
  (at level 100, m at next level, right associativity) : py_scope.
Notation "m ;;; k" := (bind m (fun _ => k))
  (at level 100, right associativity) : py_scope.
Local Open Scope py_scope.

Definition log (ev : event) (w : world) : world :=
  World (heap w) (trace w ++ [ev]) (session_messages w).

(** The list a reference points to. *)
Definition deref (l : loc) (w : world) : list message :=
  default [] (heap w !! l).

Definition read_list (l : loc) : M (list message) :=
  fun w => (Ok (deref l w), w).

(** [xs[-1]] *)
Definition last_item (xs : list message) : M message :=
  match last xs with
  | Some m => ret m
  | None => raise (Exn IndexError "list index out of range")
  end.

(** [xs.append(m)] on the list object at [l]. *)
Definition list_append (l : loc) (m : message) : M unit :=
  fun w => (Ok tt, World (<[l := deref l w ++ [m]]> (heap w)) (trace w)
                         (session_messages w)).

(** A new list object. *)
Definition new_list (xs : list message) : M loc :=
  fun w => let l := fresh (dom (heap w)) in
           (Ok l, World (<[l := xs]> (heap w)) (trace w) (session_messages w)).

(** [st.session_state.messages.append(m)] *)
Definition session_append (m : message) : M unit :=
  fun w => (Ok tt, World (heap w) (trace w) (session_messages w ++ [m])).

(** An outcome computed without touching the world. *)
Definition lift {A} (o : outcome A) : M A := fun w => (o, w).

(** ** The outside collaborators

    The search tool and the completion endpoint are given by what they
    answer (or raise) for each argument; [str_AIMessage] and [str_dict]
    stand for the text [str()] gives for a langchain [AIMessage] with a
    given content and for a dict. *)

Class Collaborators := {
  search_answer : string -> outcome string;
  sonar_answer : string -> outcome string;
  str_AIMessage : string -> string;
  str_dict : gmap string string -> string
}.

Section Script.

Context `{Collaborators}.

(** [search.invoke(query)] *)
Definition search_invoke (query : string) : M string :=
  fun w => (search_answer query, log (SearchInvoke query) w).

(** [call_sonar_api(prompt)] as the dispatch code sees it: one call that
    returns the completion text or raises.  The request it sends is the
    subject of [Sonar.call_sonar_api] below. *)
Definition call_sonar_api (prompt : string) : M string :=
  fun w => (sonar_answer prompt, log (SonarCall prompt) w).

(** Lines 56-61: the text of the last message, by shape.  The last two
    cases are the [str(last_message)] of the [else] branch. *)
Definition user_text (last_message : message) : string :=
  match last_message with
  | HumanMessage content => content
  | DictMsg d => default "" (d !! "content")
  | AIMessage content => str_AIMessage content
  | OtherObj text => text
  end.

(** The f-string of lines 73-79. *)
Definition SYSTEM_PROMPT (search_result user_question : string) : string :=
  "You are an Expert Web Research Assistant." +:+ nl +:+ nl +:+
  "SEARCH RESULTS: " +:+ search_result +:+ nl +:+ nl +:+
  "USER QUESTION: " +:+ user_question +:+ nl +:+ nl +:+
  "Provide a well-structured, informative response based on the search results.".

(** The default of the parameter [search_enabled: bool = True]. *)
Definition search_enabled_default : bool := true.

(** [chatbot(state, search_enabled)]: the value is the returned dict's
    [messages] list, a list object of its own. *)
Definition chatbot (state : State) (search_enabled : bool) : M (list message) :=
  msgs <- read_list (messages state) ;;
  last_message <- last_item msgs ;;
  let user_question := user_text last_message in
  response_text <-
    (if is_casual user_question || negb search_enabled
     then call_sonar_api user_question
     else search_result <- search_invoke user_question ;;
          call_sonar_api (SYSTEM_PROMPT search_result user_question)) ;;
  list_append (messages state) (assistant_message response_text) ;;;
  ret [assistant_message response_text].

(** Lines 67-80 on their own, read as a function of the question: the
    response text or the exception, with the outside calls made on the
    way.  The proofs relate [chatbot] to it. *)
Definition answer (search_enabled : bool) (user_question : string)
  : outcome string * list event :=
  if is_casual user_question || negb search_enabled
  then (sonar_answer user_question, [SonarCall user_question])
  else match search_answer user_question with
       | Ok search_result =>
           (sonar_answer (SYSTEM_PROMPT search_result user_question),
            [SearchInvoke user_question;
             SonarCall (SYSTEM_PROMPT search_result user_question)])
       | Raise e => (Raise e, [SearchInvoke user_question])
       end.

(** The outside call recorded as [ev] raised [e]. *)
Definition raised_by (ev : event) (e : exn) : Prop :=
  match ev with
  | SearchInvoke query => search_answer query = Raise e
  | SonarCall prompt => sonar_answer prompt = Raise e
  end.

(** ** The graph runtime

    [graph] has the one node [chatbot] behind [START] and the one state
    key [messages], reduced by [add_messages].  The functions below
    model what the langgraph library does for this graph. *)

(** langchain's conversion of one list item to a message object, for the
    items this script produces: message objects are kept, a dict is read
    through its [role] and [content] keys. *)
Definition convert_to_message (m : message) : outcome message :=
  match m with
  | HumanMessage _ | AIMessage _ => Ok m
  | DictMsg d =>
      match d !! "role", d !! "content" with
      | Some role, Some content =>
          if bool_decide (role = "user" \/ role = "human")
          then Ok (HumanMessage content)
          else if bool_decide (role = "assistant" \/ role = "ai")
          then Ok (AIMessage content)
          else Raise (Exn ValueError "Unexpected message type")
      | _, _ => Raise (Exn ValueError "Message dict must contain 'role' and 'content' keys")
      end
  | OtherObj _ => Raise (Exn NotImplementedError "Unsupported message type")
  end.

Fixpoint convert_to_messages (ms : list message) : outcome (list message) :=
  match ms with
  | [] => Ok []
  | m :: rest =>
      match convert_to_message m with
      | Ok m' =>
          match convert_to_messages rest with
          | Ok rest' => Ok (m' :: rest')
          | Raise e => Raise e
          end
      | Raise e => Raise e
      end
  end.

(** The reducer [add_messages(left, right)].  Both sides are converted;
    the messages of this script carry no id, each gets a new one, so
    nothing on the left is replaced and the right side is appended. *)
Definition add_messages (left right : list message) : outcome (list message) :=
  match convert_to_messages left with
  | Ok left' =>
      match convert_to_messages right with
      | Ok right' => Ok (left' ++ right')
      | Raise e => Raise e
      end
  | Raise e => Raise e
  end.

(** The dict handed to [graph.invoke] at lines 133-136. *)
Record graph_input := {
  in_messages : list message;
  in_search_enabled : bool
}.

(** [graph.invoke(input)].  Only [messages] is a key of [State]; the
    node is called with the state alone, so [chatbot] runs with the
    default of its second parameter.  The list the node receives is the
    list object held by the channel; the node's return value is then
    merged into it by the reducer.  The value is the final [messages]. *)
Definition graph_invoke (input : graph_input) : M (list message) :=
  initial <- lift (add_messages [] (in_messages input)) ;;
  channel <- new_list initial ;;
  update <- chatbot {| messages := channel |} search_enabled_default ;;
  current <- read_list channel ;;
  lift (add_messages current update).

(** ** The turn handler (lines 123-149) *)

(** Truth value of a string. *)
Definition truthy (s : string) : bool :=
  match s with
  | EmptyString => false
  | String _ _ => true
  end.

(** Lines 139-143. *)
Definition response_content (ai_response_msg : message) : M string :=
  match ai_response_msg with
  | AIMessage content => ret content
  | DictMsg d => ret (default (str_dict d) (d !! "content"))
  | _ => raise (Exn AttributeError "object has no attribute 'get'")
  end.

(** One run of the block under [if user_input := st.chat_input(...)]:
    [submitted] is what [st.chat_input] returned, [search_enabled] the
    state of the sidebar checkbox.  The rendering calls ([st.markdown],
    [st.error], the chat and spinner blocks) do not touch the
    conversation and are left out. *)
Definition chat_turn (submitted : option string) (search_enabled : bool) : M unit :=
  match submitted with
  | None => ret tt
  | Some user_input =>
      if truthy user_input then
        session_append (user_message user_input) ;;;
        try_except
          (result <- graph_invoke
                       {| in_messages := [user_message user_input];
                          in_search_enabled := search_enabled |} ;;
           ai_response_msg <- last_item result ;;
           ai_response <- response_content ai_response_msg ;;
           session_append (assistant_message ai_response))
          (fun e =>
             let error_msg := "Sorry, I encountered an error: " +:+ exn_str e in
             session_append (assistant_message error_msg))
      else ret tt
  end.

End Script.

(** ** The completion client (lines 34-49) *)

Module Sonar.

(** JSON values, as Python holds them after [response.json()] and as the
    [json=] argument of [requests.post] takes them. *)
#[local] Set Warnings "-register-all".
Inductive json :=
| JNull
| JBool (b : bool)
| JInt (n : Z)
| JFloat (q : Q)
| JStr (s : string)
| JList (items : list json)
| JDict (fields : gmap string json).
#[local] Set Warnings "register-all".

Record request := {
  url : string;
  headers : gmap string string;
  json_body : json
}.

(** A received response: its status line, the url it came from and what
    [response.json()] gives, which raises when the body is not JSON. *)
Record response := {
  status_code : Z;
  reason : string;
  response_url : string;
  json_result : outcome json
}.

Definition obind {A B} (o : outcome A) (k : A -> outcome B) : outcome B :=
  match o with
  | Ok a => k a
  | Raise e => Raise e
  end.

(** [response.raise_for_status()] of the requests library: an
    [HTTPError] for the 4xx and 5xx codes, nothing otherwise. *)
Definition raise_for_status (r : response) : outcome unit :=
  if bool_decide (400 <= status_code r < 500)%Z then
    Raise (Exn HTTPError (pretty (status_code r) +:+ " Client Error: " +:+
                          reason r +:+ " for url: " +:+ response_url r))
  else if bool_decide (500 <= status_code r < 600)%Z then
    Raise (Exn HTTPError (pretty (status_code r) +:+ " Server Error: " +:+
                          reason r +:+ " for url: " +:+ response_url r))
  else Ok tt.

(** [j[key]] for a string key. *)
Definition getitem (j : json) (key : string) : outcome json :=
  match j with
  | JDict fields =>
      match fields !! key with
      | Some v => Ok v
      | None => Raise (Exn KeyError ("'" +:+ key +:+ "'"))
      end
  | JList _ => Raise (Exn TypeError "list indices must be integers or slices, not str")
  | JStr _ => Raise (Exn TypeError "string indices must be integers, not 'str'")
  | _ => Raise (Exn TypeError "object is not subscriptable")
  end.

(** [j[0]] *)
Definition getitem0 (j : json) : outcome json :=
  match j with
  | JList (x :: _) => Ok x
  | JList [] => Raise (Exn IndexError "list index out of range")
  | JStr (String c _) => Ok (JStr (String c EmptyString))
  | JStr EmptyString => Raise (Exn IndexError "string index out of range")
  | JDict _ => Raise (Exn KeyError "0")
  | _ => Raise (Exn TypeError "object is not subscriptable")
  end.

Section Client.

(** The key read from the environment and the network behind
    [requests.post]: the response it delivers for a request, or the
    exception it raises. *)
Variable api_key : string.
Variable transport : request -> outcome response.

(** [requests.post(url, headers=headers, json=data)]; [sent] lists the
    requests put on the wire so far, oldest first. *)
Definition requests_post (r : request) (sent : list request)
  : outcome response * list request :=
  (transport r, sent ++ [r]).

(** The dict [data] of lines 41-46. *)
Definition data (prompt : string) : json :=
  JDict {[ "model" := JStr "sonar";
           "messages" := JList [JDict {[ "role" := JStr "user";
                                         "content" := JStr prompt ]}];
           "max_tokens" := JInt 500;
           "temperature" := JFloat (7 # 10) ]}.

Definition call_sonar_api (prompt : string) (sent : list request)
  : outcome json * list request :=
  let url := "https://api.perplexity.ai/chat/completions" in
  let headers : gmap string string :=
    {[ "Authorization" := "Bearer " +:+ api_key;
       "Content-Type" := "application/json" ]} in
  match requests_post {| url := url; headers := headers;
                         json_body := data prompt |} sent with
  | (Raise e, sent') => (Raise e, sent')
  | (Ok response, sent') =>
      (obind (raise_for_status response) (fun _ =>
       obind (json_result response) (fun body =>
       obind (getitem body "choices") (fun choices =>
       obind (getitem0 choices) (fun choice =>
       obind (getitem choice "message") (fun message =>
       getitem message "content"))))),
       sent')
  end.

End Client.

End Sonar.

(** ** The history display (lines 108-120)

    For each message of the conversation the loop opens a chat bubble
    under a role and writes a text into it. *)

(** The role and the text chosen for one message, by shape. *)
Definition display_entry (msg : message) : string * string :=
  match msg with
  | HumanMessage content => ("user", content)
  | AIMessage content => ("assistant", content)
  | DictMsg d => (default "user" (d !! "role"), default "" (d !! "content"))
  | OtherObj text => ("user", text)
  end.

(** The bubbles drawn for a conversation, in order. *)
Definition display_history (msgs : list message) : list (string * string) :=
  map display_entry msgs.

(** ** The sidebar button (lines 99-101)

    [st.session_state.messages = []]; the rerun that follows starts the
    script again on the emptied conversation. *)
Definition clear_history : M unit :=
  fun w => (Ok tt, World (heap w) (trace w) []).

(** ** A session

    Each interaction of the user runs the script once: a run with a
    value of the chat input and of the checkbox, served by the outside
    collaborators as they are at that moment, or a run with the clear
    button pressed. *)
Inductive interaction :=
| Submit (services : Collaborators) (submitted : option string) (search_enabled : bool)
| ClearHistory.

Definition handle (i : interaction) : M unit :=
  match i with
  | Submit services submitted search_enabled =>
      @chat_turn services submitted search_enabled
  | ClearHistory => clear_history
  end.

Fixpoint chat_session (interactions : list interaction) : M unit :=
  match interactions with
  | [] => ret tt
  | i :: rest => handle i ;;; chat_session rest
  end.

(** A run in which a non-empty text was submitted. *)
Definition is_submission (i : interaction) : bool :=
  match i with
  | Submit _ (Some user_input) _ => truthy user_input
  | _ => false
  end.

Definition is_clear (i : interaction) : bool :=
  match i with
  | ClearHistory => true
  | Submit _ _ _ => false
  end.

(** A conversation made of question and reply pairs, as dicts. *)
Fixpoint conversation_of (pairs : list (string * string)) : list message :=
  match pairs with
  | [] => []
  | (question, reply) :: rest =>
      user_message question :: assistant_message reply :: conversation_of rest
  end.

(** ** The API key (lines 17-25)

    [environ] is [os.environ], [api_input] the value of the password
    field, which the script reads only when the variable is missing or
    empty.  The value is the environment left behind and the key the
    script goes on with, or [None] when it stops at [st.stop()]. *)

Definition PERPLEXITY_API_KEY : string := "PERPLEXITY_API_KEY".

Definition load_api_key (environ : gmap string string) (api_input : string)
  : gmap string string * option string :=
  let missing :=
    match environ !! PERPLEXITY_API_KEY with
    | None => true
    | Some value => negb (truthy value)
    end in
  let environ' :=
    if missing
    then if truthy api_input
         then <[PERPLEXITY_API_KEY := api_input]> environ
         else environ
    else environ in
  match environ' !! PERPLEXITY_API_KEY with
  | Some api_key =>
      if truthy api_key then (environ', Some api_key) else (environ', None)
  | None => (environ', None)
  end.

(** ** The last message, whatever it holds (lines 53-65)

    The list given to [chatbot] may hold any Python value, and a message
    or a dict may hold any value as its content.  The first lines of
    [chatbot] are embedded here over such values, with each attribute
    access and method call as the partial operation it is. *)

(** A Python value: the built-in kinds, the two langchain message
    classes with their content, and any other object, given by the name
    of its type and the text [str()] returns for it; such an object has
    none of the attributes [content], [get] and [lower]. *)
#[local] Set Warnings "-register-all".
Inductive pyobj :=
| PNone
| PBool (b : bool)
| PInt (n : Z)
| PStr (s : string)
| PList (items : list pyobj)
| PDict (entries : gmap string pyobj)
| PHumanMessage (content : pyobj)
| PAIMessage (content : pyobj)
| PObject (type_name text : string).
#[local] Set Warnings "register-all".

(** [type(x).__name__] *)
Definition type_name_of (x : pyobj) : string :=
  match x with
  | PNone => "NoneType"
  | PBool _ => "bool"
  | PInt _ => "int"
  | PStr _ => "str"
  | PList _ => "list"
  | PDict _ => "dict"
  | PHumanMessage _ => "HumanMessage"
  | PAIMessage _ => "AIMessage"
  | PObject type_name _ => type_name
  end.

(** The [AttributeError] for a missing attribute. *)
Definition no_attribute (x : pyobj) (name : string) : exn :=
  Exn AttributeError
      ("'" +:+ type_name_of x +:+ "' object has no attribute '" +:+ name +:+ "'").

(** [isinstance(x, HumanMessage)] *)
Definition isinstance_HumanMessage (x : pyobj) : bool :=
  match x with
  | PHumanMessage _ => true
  | _ => false
  end.

(** [isinstance(x, dict)] *)
Definition isinstance_dict (x : pyobj) : bool :=
  match x with
  | PDict _ => true
  | _ => false
  end.

(** [x.content] *)
Definition getattr_content (x : pyobj) : outcome pyobj :=
  match x with
  | PHumanMessage content | PAIMessage content => Ok content
  | _ => Raise (no_attribute x "content")
  end.

(** [x.get(key, fallback)] *)
Definition call_get (x : pyobj) (key : string) (fallback : pyobj) : outcome pyobj :=
  match x with
  | PDict entries => Ok (default fallback (entries !! key))
  | _ => Raise (no_attribute x "get")
  end.

(** [x.lower()] *)
Definition call_lower (x : pyobj) : outcome string :=
  match x with
  | PStr s => Ok (lower s)
  | _ => Raise (no_attribute x "lower")
  end.

Section LastMessage.

(** The text [str()] gives for the values that are neither a string nor
    an object carrying its text. *)
Variable repr_of : pyobj -> string.

(** [str(x)] *)
Definition py_str (x : pyobj) : string :=
  match x with
  | PStr s => s
  | PObject _ text => text
  | _ => repr_of x
  end.

(** Lines 56-61. *)
Definition extract_user_question (last_message : pyobj) : outcome pyobj :=
  if isinstance_HumanMessage last_message then getattr_content last_message
  else if isinstance_dict last_message then call_get last_message "content" (PStr "")
  else Ok (PStr (py_str last_message)).

(** Lines 53-65: the question and the verdict of the classifier, or the
    exception raised on the way.  No outside call is made in these
    lines. *)
Definition question_and_verdict (messages_list : list pyobj) : outcome (pyobj * bool) :=
  match last messages_list with
  | None => Raise (Exn IndexError "list index out of range")
  | Some last_message =>
      Sonar.obind (extract_user_question last_message) (fun user_question =>
      Sonar.obind (call_lower user_question) (fun lowered =>
      Ok (user_question,
          existsb (fun word => str_in word lowered) casual_keywords)))
  end.

End LastMessage.

(** A message with text contents, as a Python value. *)
Definition to_pyobj (m : message) : pyobj :=
  match m with
  | HumanMessage content => PHumanMessage (PStr content)
  | AIMessage content => PAIMessage (PStr content)
  | DictMsg d => PDict (PStr <$> d)
  | OtherObj text => PObject "object" text
  end.

(** ** Sample runs

    Collaborators and worlds on which the script is run in the examples
    that close this file. *)

Definition answering : Collaborators := {|
  search_answer := fun _ => Ok "Paris is the capital of France.";
  sonar_answer := fun _ => Ok "The capital of France is Paris.";
  str_AIMessage := fun content => content;
  str_dict := fun _ => "{}"
|}.

Definition search_down : Collaborators := {|
  search_answer := fun _ => Raise (Exn OtherException "search unavailable");
  sonar_answer := fun _ => Ok "The capital of France is Paris.";
  str_AIMessage := fun content => content;
  str_dict := fun _ => "{}"
|}.

Definition sonar_down : Collaborators := {|
  search_answer := fun _ => Ok "Paris is the capital of France.";
  sonar_answer := fun _ => Raise (Exn HTTPError "401 Client Error: Unauthorized");
  str_AIMessage := fun content => content;
  str_dict := fun _ => "{}"
|}.

(** A world whose list object 0 holds [msgs], with nothing called yet
    and an empty conversation. *)
Definition world_with (msgs : list message) : world :=
  World {[ 0 := msgs ]} [] [].

Definition state0 : State := {| messages := 0 |}.

(** A completion endpoint that answers, and one that rejects the key. *)
Definition transport_ok (r : Sonar.request) : outcome Sonar.response :=
  Ok {| Sonar.status_code := 200;
        Sonar.reason := "OK";
        Sonar.response_url := Sonar.url r;
        Sonar.json_result :=
          Ok (Sonar.JDict
                {[ "choices" :=
                     Sonar.JList
                       [Sonar.JDict
                          {[ "message" :=
                               Sonar.JDict
                                 {[ "role" := Sonar.JStr "assistant";
                                    "content" := Sonar.JStr "Paris." ]} ]}] ]}) |}.

Definition transport_unauthorized (r : Sonar.request) : outcome Sonar.response :=
  Ok {| Sonar.status_code := 401;
        Sonar.reason := "Unauthorized";
        Sonar.response_url := Sonar.url r;
        Sonar.json_result := Ok (Sonar.JDict ∅) |}.

(** An endpoint that answers 300 Multiple Choices with a body of the
    usual form. *)
Definition answer_multiple_choices : Sonar.response :=
  {| Sonar.status_code := 300;
     Sonar.reason := "Multiple Choices";
     Sonar.response_url := "https://api.perplexity.ai/chat/completions";
     Sonar.json_result :=
       Ok (Sonar.JDict
             {[ "choices" :=
                  Sonar.JList
                    [Sonar.JDict
                       {[ "message" :=
                            Sonar.JDict
                              {[ "role" := Sonar.JStr "assistant";
                                 "content" := Sonar.JStr "Paris." ]} ]}] ]}) |}.

Definition transport_multiple_choices (r : Sonar.request) : outcome Sonar.response :=
  Ok answer_multiple_choices.


(** * Properties *)

(** ** The substring scan *)

Lemma startswith_append (w post : string) : startswith w (w +:+ post) = true.
Proof.
  induction w as [|a w IH]; simpl; [done|].
  by rewrite Ascii.eqb_refl.
Qed.

Lemma startswith_split (w s : string) :
  startswith w s = true -> exists post, s = w +:+ post.
Proof.
  revert s; induction w as [|a w IH]; intros s Hs; simpl in *.
  - by exists s.
  - destruct s as [|b s]; [done|].
    destruct (Ascii.eqb a b) eqn:Hab; [|done].
    apply Ascii.eqb_eq in Hab as ->.
    destruct (IH _ Hs) as [post ->]. by exists post.
Qed.

Lemma str_in_here (w s : string) :
  str_in w s = startswith w s || match s with
                                 | EmptyString => false
                                 | String _ s' => str_in w s'
                                 end.
Proof. by destruct s. Qed.

Lemma str_in_occurs (w s : string) : str_in w s = true <-> occurs_in w s.
Proof.
  split.
  - induction s as [|c s IH]; simpl; intros Hs.
    + rewrite orb_false_r in Hs.
      destruct (startswith_split _ _ Hs) as [post Hpost].
      by exists EmptyString, post.
    + apply orb_true_iff in Hs as [Hs|Hs].
      * destruct (startswith_split _ _ Hs) as [post Hpost].
        by exists EmptyString, post.
      * destruct (IH Hs) as (pre & post & ->).
        by exists (String c pre), post.
  - intros (pre & post & ->).
    induction pre as [|c pre IH].
    + change (str_in w (w +:+ post) = true).
      by rewrite str_in_here, startswith_append.
    + change (str_in w (String c (pre +:+ w +:+ post)) = true).
      rewrite str_in_here, IH. apply orb_true_r.
Qed.

(** ** The classifier *)

(** C4. The classifier answers true for a string exactly when the
    lowercased string contains one of the seven literals hi, hello,
    how are you, what's up, hey, joke, python; the empty string is
    classified as not casual. *)
Theorem is_casual_iff_keyword_occurs :
  (forall s : string,
      is_casual s = true <->
      exists word : string,
        In word ["hi"; "hello"; "how are you"; "what's up"; "hey"; "joke"; "python"]
        /\ occurs_in word (lower s))
  /\ is_casual "" = false.
Proof.
  split; [|reflexivity].
  intros s. unfold is_casual. rewrite existsb_exists.
  split; intros (word & Hin & Hocc); exists word; split; try done;
    by apply str_in_occurs.
Qed.

Lemma is_casual_occurs (s : string) :
  is_casual s = true <->
  exists word : string,
    In word ["hi"; "hello"; "how are you"; "what's up"; "hey"; "joke"; "python"]
    /\ occurs_in word (lower s).
Proof.
  unfold is_casual. rewrite existsb_exists.
  split; intros (word & Hin & Hocc); exists word; split; try done;
    by apply str_in_occurs.
Qed.

Lemma append_cons (x : ascii) (a b : string) :
  String x a +:+ b = String x (a +:+ b).
Proof. reflexivity. Qed.

Lemma append_assoc (a b c : string) : (a +:+ b) +:+ c = a +:+ b +:+ c.
Proof.
  induction a as [|x a IH]; [done|].
  by rewrite !append_cons, IH.
Qed.

(** ** The dispatch function *)

Section Dispatch.

Context `{Collaborators}.

Implicit Types (state : State) (w : world) (m : message).

Lemma chatbot_empty state flag w :
  deref (messages state) w = [] ->
  chatbot state flag w = (Raise (Exn IndexError "list index out of range"), w).
Proof.
  intros Hnil. unfold chatbot, bind, read_list, last_item. by rewrite Hnil.
Qed.

Lemma chatbot_run state flag w m :
  last (deref (messages state) w) = Some m ->
  chatbot state flag w =
  match answer flag (user_text m) with
  | (Ok r, evs) =>
      (Ok [assistant_message r],
       World (<[messages state := deref (messages state) w ++ [assistant_message r]]> (heap w))
             (trace w ++ evs) (session_messages w))
  | (Raise e, evs) =>
      (Raise e, World (heap w) (trace w ++ evs) (session_messages w))
  end.
Proof.
  intros Hlast.
  unfold chatbot, bind, read_list, last_item, answer; rewrite Hlast.
  unfold ret, call_sonar_api, search_invoke, list_append, log, deref; simpl.
  destruct (is_casual (user_text m) || negb flag); simpl.
  - by destruct (sonar_answer (user_text m)).
  - destruct (search_answer (user_text m)) as [sr|e]; simpl; [|done].
    destruct (sonar_answer _); simpl; [|by rewrite <- app_assoc].
    by rewrite <- app_assoc.
Qed.

Lemma deref_insert l xs w tr ss :
  deref l (World (<[l := xs]> (heap w)) tr ss) = xs.
Proof. unfold deref; simpl. by rewrite lookup_insert_eq. Qed.

Lemma prompt_holds_search_result (sr q : string) :
  occurs_in sr (SYSTEM_PROMPT sr q).
Proof.
  unfold SYSTEM_PROMPT.
  exists ("You are an Expert Web Research Assistant." +:+ nl +:+ nl +:+
          "SEARCH RESULTS: ").
  eexists. by rewrite !append_assoc.
Qed.

Lemma prompt_holds_question (sr q : string) :
  occurs_in q (SYSTEM_PROMPT sr q).
Proof.
  unfold SYSTEM_PROMPT.
  exists ("You are an Expert Web Research Assistant." +:+ nl +:+ nl +:+
          "SEARCH RESULTS: " +:+ sr +:+ nl +:+ nl +:+ "USER QUESTION: ").
  eexists. by rewrite !append_assoc.
Qed.

(** With the flag off the question goes to the completion client as it
    is and the search tool is left alone. *)
Lemma chatbot_search_disabled state w m :
  last (deref (messages state) w) = Some m ->
  trace (chatbot state false w).2 = trace w ++ [SonarCall (user_text m)].
Proof.
  intros Hlast. rewrite (chatbot_run _ _ _ _ Hlast). unfold answer.
  rewrite orb_true_r. by destruct (sonar_answer _).
Qed.

(** C5. When the user text contains a casual keyword, in any letter
    case, [chatbot] makes one outside call, the completion client with
    the raw text, and none to the search tool, whatever the flag; the
    text hello is casual and is sent as the prompt hello. *)
Theorem casual_text_skips_search state flag w m :
  last (deref (messages state) w) = Some m ->
  ((exists word : string,
       In word ["hi"; "hello"; "how are you"; "what's up"; "hey"; "joke"; "python"]
       /\ occurs_in word (lower (user_text m))) ->
   trace (chatbot state flag w).2 = trace w ++ [SonarCall (user_text m)])
  /\ (user_text m = "hello" ->
      is_casual (user_text m) = true
      /\ trace (chatbot state flag w).2 = trace w ++ [SonarCall "hello"]).
Proof.
  intros Hlast.
  assert (Hdirect : is_casual (user_text m) = true ->
            trace (chatbot state flag w).2 = trace w ++ [SonarCall (user_text m)]).
  { intros Hc. rewrite (chatbot_run _ _ _ _ Hlast). unfold answer.
    rewrite Hc. simpl. by destruct (sonar_answer _). }
  split.
  - intros Hkw. by apply Hdirect, is_casual_occurs.
  - intros Hhello. rewrite Hhello in Hdirect |- *. split; [done|].
    by apply Hdirect.
Qed.

(** C6. When the user text contains no casual keyword and search is
    enabled, the first outside call of [chatbot] is the search tool with
    that text, and it is the only search call; a completion call can
    only follow it, and when the search returns, the completion client
    is called once with a prompt that contains the search result and the
    question. *)
Theorem informational_text_searches_once_first state w m :
  last (deref (messages state) w) = Some m ->
  ~ (exists word : string,
        In word ["hi"; "hello"; "how are you"; "what's up"; "hey"; "joke"; "python"]
        /\ occurs_in word (lower (user_text m))) ->
  exists rest : list event,
    trace (chatbot state true w).2 = trace w ++ SearchInvoke (user_text m) :: rest
    /\ (forall query, ~ In (SearchInvoke query) rest)
    /\ (forall prompt, In (SonarCall prompt) rest ->
          exists search_result,
            search_answer (user_text m) = Ok search_result
            /\ rest = [SonarCall prompt]
            /\ occurs_in search_result prompt
            /\ occurs_in (user_text m) prompt)
    /\ (forall search_result,
          search_answer (user_text m) = Ok search_result ->
          rest = [SonarCall (SYSTEM_PROMPT search_result (user_text m))]).
Proof.
  intros Hlast Hnone.
  assert (Hc : is_casual (user_text m) = false).
  { destruct (is_casual (user_text m)) eqn:Hc; [|done].
    by apply is_casual_occurs in Hc. }
  rewrite (chatbot_run _ _ _ _ Hlast). unfold answer. rewrite Hc. simpl.
  destruct (search_answer (user_text m)) as [sr|e] eqn:Hsearch.
  - exists [SonarCall (SYSTEM_PROMPT sr (user_text m))].
    split; [by destruct (sonar_answer _)|].
    split; [intros query [Hq|[]]; discriminate|].
    split; [|by intros ? [= <-]].
    intros prompt [[= <-]|[]]. exists sr.
    eauto using prompt_holds_search_result, prompt_holds_question.
  - exists []. split; [done|]. split; [by intros ? []|].
    split; [by intros ? []|done].
Qed.

(** C2. In the branch for non-casual text with search enabled, an
    exception raised by the search tool leaves [chatbot] as it was
    raised: the completion client is not called and the message list is
    not touched. *)
Theorem search_exception_leaves_chatbot state w m e :
  last (deref (messages state) w) = Some m ->
  is_casual (user_text m) = false ->
  search_answer (user_text m) = Raise e ->
  chatbot state true w = (Raise e, log (SearchInvoke (user_text m)) w).
Proof.
  intros Hlast Hc Hsearch.
  rewrite (chatbot_run _ _ _ _ Hlast). unfold answer.
  by rewrite Hc, Hsearch.
Qed.

End Dispatch.

(** ** The last message, whatever it holds *)

Section Extraction.

Context `{Collaborators}.

Variable repr_of : pyobj -> string.


(** On messages with text contents the extraction gives the text
    [chatbot] works on, and lines 53-65 give that text with the verdict
    of [is_casual], provided [str()] of an [AIMessage] is read the same
    way on both sides. *)
Lemma extract_to_pyobj (m : message) :
  (forall content, repr_of (PAIMessage (PStr content)) = str_AIMessage content) ->
  extract_user_question repr_of (to_pyobj m) = Ok (PStr (user_text m)).
Proof.
  intros Hrepr. destruct m as [c|c|d|t]; simpl; [done| | |done].
  - unfold extract_user_question. simpl. by rewrite Hrepr.
  - unfold extract_user_question. simpl. rewrite lookup_fmap.
    by destruct (d !! "content").
Qed.

Lemma question_and_verdict_to_pyobj (msgs : list message) :
  (forall content, repr_of (PAIMessage (PStr content)) = str_AIMessage content) ->
  question_and_verdict repr_of (to_pyobj <$> msgs) =
  match last msgs with
  | None => Raise (Exn IndexError "list index out of range")
  | Some m => Ok (PStr (user_text m), is_casual (user_text m))
  end.
Proof.
  intros Hrepr. unfold question_and_verdict. rewrite fmap_last.
  destruct (last msgs) as [m|]; [|done]. simpl.
  by rewrite extract_to_pyobj.
Qed.


End Extraction.

(** ** The graph run and the turn handler *)

Section Turn.

Context `{Collaborators}.

Implicit Types (w : world) (q : string).

Lemma convert_user_message q :
  convert_to_message (user_message q) = Ok (HumanMessage q).
Proof.
  unfold convert_to_message, user_message, role_content.
  rewrite lookup_insert_ne, lookup_singleton_eq, lookup_insert_eq by done.
  by rewrite bool_decide_eq_true_2 by (by left).
Qed.

Lemma convert_assistant_message r :
  convert_to_message (assistant_message r) = Ok (AIMessage r).
Proof.
  unfold convert_to_message, assistant_message, role_content.
  rewrite lookup_insert_ne, lookup_singleton_eq, lookup_insert_eq by done.
  rewrite bool_decide_eq_false_2 by (by intros [|]).
  by rewrite bool_decide_eq_true_2 by (by left).
Qed.

Lemma convert_to_messages_app (xs ys xs' ys' : list message) :
  convert_to_messages xs = Ok xs' ->
  convert_to_messages ys = Ok ys' ->
  convert_to_messages (xs ++ ys) = Ok (xs' ++ ys').
Proof.
  revert xs'; induction xs as [|x xs IH]; intros xs' Hxs Hys; simpl in *.
  - by injection Hxs as <-.
  - destruct (convert_to_message x); [|done].
    destruct (convert_to_messages xs) as [cs|]; [|done].
    injection Hxs as <-. by rewrite (IH cs eq_refl Hys).
Qed.

Lemma add_messages_input q :
  add_messages [] [user_message q] = Ok [HumanMessage q].
Proof.
  unfold add_messages. cbn [convert_to_messages].
  by rewrite convert_user_message.
Qed.

Lemma add_messages_update q r :
  add_messages [HumanMessage q; assistant_message r] [assistant_message r] =
  Ok [HumanMessage q; AIMessage r; AIMessage r].
Proof.
  unfold add_messages. cbn [convert_to_messages convert_to_message].
  by rewrite convert_assistant_message.
Qed.

(** The graph run on the one-message input of the turn handler. *)
Lemma graph_invoke_run q flag w :
  let channel := fresh (dom (heap w)) in
  graph_invoke {| in_messages := [user_message q]; in_search_enabled := flag |} w =
  match answer true q with
  | (Ok r, evs) =>
      (Ok [HumanMessage q; AIMessage r; AIMessage r],
       World (<[channel := [HumanMessage q; assistant_message r]]>
                (<[channel := [HumanMessage q]]> (heap w)))
             (trace w ++ evs) (session_messages w))
  | (Raise e, evs) =>
      (Raise e,
       World (<[channel := [HumanMessage q]]> (heap w))
             (trace w ++ evs) (session_messages w))
  end.
Proof.
  intros channel. unfold graph_invoke, search_enabled_default.
  cbn [in_messages]. rewrite add_messages_input.
  unfold bind at 1, lift at 1.
  unfold bind at 1, new_list. fold channel.
  unfold bind at 1.
  set (w1 := World (<[channel := [HumanMessage q]]> (heap w)) (trace w)
                   (session_messages w)).
  assert (Hlast : last (deref (messages {| messages := channel |}) w1)
                  = Some (HumanMessage q)).
  { unfold w1. cbn [messages]. by rewrite deref_insert. }
  rewrite (chatbot_run _ _ _ _ Hlast). cbn [user_text messages].
  destruct (answer true q) as [[r|e] evs]; [|done].
  unfold bind, read_list, lift. rewrite !deref_insert.
  assert (Hchannel : deref channel w1 = [HumanMessage q]) by apply deref_insert.
  rewrite Hchannel. cbn [app]. by rewrite add_messages_update.
Qed.

(** The text shown for a failed turn. *)
Lemma error_msg_prefix (e : exn) :
  startswith "Sorry, I encountered an error:"
             ("Sorry, I encountered an error: " +:+ exn_str e) = true.
Proof. reflexivity. Qed.

Lemma truthy_nonempty q : q <> "" -> truthy q = true.
Proof. by destruct q. Qed.

(** A whole turn, in terms of the branch taken with search enabled. *)
Lemma chat_turn_run q flag w :
  q <> "" ->
  let channel := fresh (dom (heap w)) in
  chat_turn (Some q) flag w =
  match answer true q with
  | (Ok r, evs) =>
      (Ok tt,
       World (<[channel := [HumanMessage q; assistant_message r]]>
                (<[channel := [HumanMessage q]]> (heap w)))
             (trace w ++ evs)
             (session_messages w ++ [user_message q; assistant_message r]))
  | (Raise e, evs) =>
      (Ok tt,
       World (<[channel := [HumanMessage q]]> (heap w))
             (trace w ++ evs)
             (session_messages w ++
                [user_message q;
                 assistant_message ("Sorry, I encountered an error: " +:+ exn_str e)]))
  end.
Proof.
  intros Hq channel. unfold chat_turn. rewrite (truthy_nonempty _ Hq).
  unfold bind at 1, session_append at 1.
  unfold try_except, bind at 1.
  set (w0 := World _ _ _).
  pose proof (graph_invoke_run q flag w0) as Hrun. simpl in Hrun.
  rewrite Hrun. fold channel.
  destruct (answer true q) as [[r|e] evs]; simpl.
  - unfold bind, ret, session_append; simpl. by rewrite <- app_assoc.
  - unfold session_append; simpl. by rewrite <- app_assoc.
Qed.

(** The checkbox value put into the graph input plays no part in the
    turn. *)
Lemma chat_turn_ignores_checkbox submitted flag w :
  chat_turn submitted flag w = chat_turn submitted true w.
Proof.
  destruct submitted as [q|]; [|done].
  destruct (decide (q = "")) as [->|Hq]; [done|].
  by rewrite !chat_turn_run.
Qed.

Lemma chat_turn_never_raises submitted flag w :
  (chat_turn submitted flag w).1 = Ok tt.
Proof.
  destruct submitted as [q|]; [|done].
  destruct (decide (q = "")) as [->|Hq]; [done|].
  rewrite chat_turn_run by done.
  by destruct (answer true q) as [[r|e] evs].
Qed.

(** The graph run of a successful turn ends with the assistant message
    twice: once from the append inside [chatbot], once from the merge
    of its return value. *)
Lemma graph_invoke_result q flag w result :
  (graph_invoke {| in_messages := [user_message q];
                   in_search_enabled := flag |} w).1 = Ok result ->
  exists r, result = [HumanMessage q; AIMessage r; AIMessage r].
Proof.
  rewrite graph_invoke_run.
  destruct (answer true q) as [[r|e] evs]; [|done].
  intros [= <-]. by exists r.
Qed.

(** C1, at a turn taken with the checkbox off.  The question about the
    capital of France contains no casual keyword; the turn still calls
    the search tool first, and when the search returns, the completion
    client receives the composed prompt instead of the raw text: the
    checkbox value never reaches the second parameter of [chatbot]. *)
Theorem checkbox_off_turn_still_searches w :
  is_casual "What is the capital of France?" = false
  /\ exists rest : list event,
       trace (chat_turn (Some "What is the capital of France?") false w).2 =
       trace w ++ SearchInvoke "What is the capital of France?" :: rest
       /\ (forall search_result,
             search_answer "What is the capital of France?" = Ok search_result ->
             rest = [SonarCall (SYSTEM_PROMPT search_result
                                              "What is the capital of France?")]).
Proof.
  split; [reflexivity|].
  rewrite chat_turn_run by done. unfold answer.
  replace (is_casual "What is the capital of France?") with false by reflexivity.
  cbn [orb negb].
  destruct (search_answer _) as [sr|e].
  - eexists. split; [by destruct (sonar_answer _)|]. by intros ? [= <-].
  - by eexists.
Qed.

(** C3. In a turn during which a call to the search tool or to the
    completion client raises, the handler itself ends normally, and the
    conversation gains the user message followed by an assistant message
    whose text is the fixed apology followed by the text of the
    exception. *)
Theorem failed_turn_appends_error_message q flag w evs ev e :
  q <> "" ->
  trace (chat_turn (Some q) flag w).2 = trace w ++ evs ->
  In ev evs ->
  raised_by ev e ->
  (chat_turn (Some q) flag w).1 = Ok tt
  /\ session_messages (chat_turn (Some q) flag w).2 =
     session_messages w ++
       [user_message q;
        assistant_message ("Sorry, I encountered an error: " +:+ exn_str e)]
  /\ startswith "Sorry, I encountered an error:"
                ("Sorry, I encountered an error: " +:+ exn_str e) = true.
Proof.
  intros Hq Htrace Hev Hraised.
  split; [apply chat_turn_never_raises|].
  split; [|apply error_msg_prefix].
  revert Htrace. rewrite chat_turn_run by done. unfold answer.
  destruct (is_casual q || negb true).
  - destruct (sonar_answer q) as [r|e'] eqn:Hsonar; cbn [snd trace];
      intros <-%app_inv_head; destruct Hev as [<-|[]]; simpl in Hraised;
      rewrite Hsonar in Hraised; by simplify_eq.
  - destruct (search_answer q) as [sr|e'] eqn:Hsearch.
    + destruct (sonar_answer _) as [r|e''] eqn:Hsonar; cbn [snd trace];
        intros <-%app_inv_head; destruct Hev as [<-|[<-|[]]];
        simpl in Hraised; rewrite ?Hsearch, ?Hsonar in Hraised;
        by simplify_eq.
    + cbn [snd trace]. intros <-%app_inv_head.
      destruct Hev as [<-|[]]. simpl in Hraised.
      rewrite Hsearch in Hraised. by simplify_eq.
Qed.

(** C8. Every turn, successful or failed, ends normally and leaves the
    conversation two messages longer: the user message, then one
    assistant message, which holds the completion text when the
    completion call returned and the error text when a call raised.
    The first outside call of the turn is made with the text of that
    user message. *)
Theorem turn_appends_user_then_assistant q flag w :
  q <> "" ->
  exists (reply : string) (ev : event) (rest : list event),
    (chat_turn (Some q) flag w).1 = Ok tt
    /\ session_messages (chat_turn (Some q) flag w).2 =
       session_messages w ++ [user_message q; assistant_message reply]
    /\ length (session_messages (chat_turn (Some q) flag w).2) =
       length (session_messages w) + 2
    /\ trace (chat_turn (Some q) flag w).2 = trace w ++ ev :: rest
    /\ (ev = SonarCall q \/ ev = SearchInvoke q)
    /\ ((exists prompt, In (SonarCall prompt) (ev :: rest)
                        /\ sonar_answer prompt = Ok reply)
        \/ (exists failed e, In failed (ev :: rest) /\ raised_by failed e
                             /\ reply = "Sorry, I encountered an error: " +:+ exn_str e)).
Proof.
  intros Hq.
  assert (Hlen : forall xs (a b : message), length (xs ++ [a; b]) = length xs + 2).
  { intros. rewrite length_app. simpl. lia. }
  rewrite chat_turn_run by done. unfold answer.
  destruct (is_casual q || negb true).
  - destruct (sonar_answer q) as [r|e] eqn:Hsonar.
    + exists r, (SonarCall q), []. cbn [fst snd trace session_messages].
      repeat split; auto. left. exists q. split; [by left|done].
    + exists ("Sorry, I encountered an error: " +:+ exn_str e), (SonarCall q), [].
      cbn [fst snd trace session_messages]. repeat split; auto.
      right. exists (SonarCall q), e. split; [by left|done].
  - destruct (search_answer q) as [sr|e] eqn:Hsearch.
    + destruct (sonar_answer (SYSTEM_PROMPT sr q)) as [r|e] eqn:Hsonar.
      * exists r, (SearchInvoke q), [SonarCall (SYSTEM_PROMPT sr q)].
        cbn [fst snd trace session_messages]. repeat split; auto.
        left. exists (SYSTEM_PROMPT sr q). split; [by right; left|done].
      * exists ("Sorry, I encountered an error: " +:+ exn_str e),
               (SearchInvoke q), [SonarCall (SYSTEM_PROMPT sr q)].
        cbn [fst snd trace session_messages]. repeat split; auto.
        right. exists (SonarCall (SYSTEM_PROMPT sr q)), e.
        split; [by right; left|done].
    + exists ("Sorry, I encountered an error: " +:+ exn_str e), (SearchInvoke q), [].
      cbn [fst snd trace session_messages]. repeat split; auto.
      right. exists (SearchInvoke q), e. split; [by left|done].
Qed.

(** C10. When [chatbot] returns, the list its state refers to has grown
    in place by the assistant dict, and the returned list holds that
    same dict; merging the returned list into the grown list with the
    reducer then yields the assistant message twice. *)
Theorem chatbot_appends_in_place_and_returns state flag w update w' :
  chatbot state flag w = (Ok update, w') ->
  exists response_text : string,
    update = [assistant_message response_text]
    /\ deref (messages state) w' =
       deref (messages state) w ++ [assistant_message response_text]
    /\ (forall current,
          convert_to_messages (deref (messages state) w) = Ok current ->
          add_messages (deref (messages state) w') update =
          Ok (current ++ [AIMessage response_text; AIMessage response_text])).
Proof.
  intros Hrun.
  destruct (last (deref (messages state) w)) as [m|] eqn:Hlast; cycle 1.
  { apply last_None in Hlast. by rewrite chatbot_empty in Hrun. }
  rewrite (chatbot_run _ _ _ _ Hlast) in Hrun.
  destruct (answer flag (user_text m)) as [[r|e] evs]; [|done].
  injection Hrun as <- <-. exists r. split; [done|].
  rewrite deref_insert. split; [done|].
  intros current Hcur. unfold add_messages.
  rewrite (convert_to_messages_app _ [assistant_message r] current [AIMessage r] Hcur).
  - cbn [convert_to_messages]. rewrite convert_assistant_message.
    by rewrite <- app_assoc.
  - cbn [convert_to_messages]. by rewrite convert_assistant_message.
Qed.

End Turn.

(** ** The completion client *)

Section SonarClient.

Import Sonar.

Variable api_key : string.
Variable transport : request -> outcome response.

Lemma raise_for_status_error (r : response) :
  (400 <= status_code r < 600)%Z ->
  exists e, raise_for_status r = Raise e /\ exn_cls e = HTTPError.
Proof.
  intros Hcode. unfold raise_for_status.
  destruct (bool_decide (400 <= status_code r < 500)%Z) eqn:Hclient; [by eexists|].
  apply bool_decide_eq_false in Hclient.
  rewrite bool_decide_eq_true_2 by lia. by eexists.
Qed.

Lemma raise_for_status_pass (r : response) :
  ~ (400 <= status_code r < 600)%Z -> raise_for_status r = Ok tt.
Proof.
  intros Hcode. unfold raise_for_status.
  by rewrite !bool_decide_eq_false_2 by lia.
Qed.

(** C7. For every prompt the client puts exactly one request on the
    wire, whatever comes back: a POST whose body is the dict with the
    model name, a one-item message list holding the prompt under the
    user role, [max_tokens] 500 and [temperature] 0.7.  On a 4xx or 5xx
    status it raises [HTTPError]; otherwise, when the JSON response
    holds a value at [choices][0][message][content], that value is
    returned. *)
Theorem sonar_request_shape_and_result (prompt : string) (sent : list request) :
  let request :=
    {| url := "https://api.perplexity.ai/chat/completions";
       headers := {[ "Authorization" := "Bearer " +:+ api_key;
                     "Content-Type" := "application/json" ]};
       json_body :=
         JDict {[ "model" := JStr "sonar";
                  "messages" := JList [JDict {[ "role" := JStr "user";
                                                "content" := JStr prompt ]}];
                  "max_tokens" := JInt 500;
                  "temperature" := JFloat (7 # 10) ]} |} in
  (call_sonar_api api_key transport prompt sent).2 = sent ++ [request]
  /\ (forall response,
        transport request = Ok response ->
        (400 <= status_code response < 600)%Z ->
        exists e, (call_sonar_api api_key transport prompt sent).1 = Raise e
                  /\ exn_cls e = HTTPError)
  /\ (forall response body choice others message content,
        transport request = Ok response ->
        ~ (400 <= status_code response < 600)%Z ->
        json_result response = Ok (JDict body) ->
        body !! "choices" = Some (JList (JDict choice :: others)) ->
        choice !! "message" = Some (JDict message) ->
        message !! "content" = Some content ->
        (call_sonar_api api_key transport prompt sent).1 = Ok content).
Proof.
  intros request. unfold call_sonar_api, requests_post, data. fold request.
  split; [by destruct (transport request)|].
  split.
  - intros response -> Hcode. cbn [fst].
    destruct (raise_for_status_error _ Hcode) as (e & -> & He). by exists e.
  - intros response body choice others message content -> Hcode Hjson Hchoices
      Hmessage Hcontent.
    cbn [fst]. rewrite raise_for_status_pass, Hjson by done.
    cbn [obind getitem]. rewrite Hchoices.
    cbn [obind getitem getitem0]. rewrite Hmessage.
    cbn [obind getitem]. by rewrite Hcontent.
Qed.

End SonarClient.

(** C7 as worded, with every status outside 2xx raising, fails: the
    answer 300 Multiple Choices passes [raise_for_status], and the
    content of its body is returned. *)
Lemma sonar_returns_on_status_300 :
  ~ (forall (transport : Sonar.request -> outcome Sonar.response)
            (prompt : string) (sent : list Sonar.request) (answer : Sonar.response),
        (forall r, transport r = Ok answer) ->
        ~ (200 <= Sonar.status_code answer < 300)%Z ->
        exists e, (Sonar.call_sonar_api "key" transport prompt sent).1 = Raise e).
Proof.
  intros Hraises.
  destruct (Hraises transport_multiple_choices "hello" [] answer_multiple_choices)
    as [e He].
  - done.
  - cbn. lia.
  - vm_compute in He. discriminate He.
Qed.

(** * The theorems on sample runs *)

(** A greeting in mixed case, with the flag off, and the text hello
    with the flag on. *)
Lemma casual_text_skips_search_witness :
  trace (@chatbot answering state0 false (world_with [HumanMessage "Hello there"])).2 =
  trace (world_with [HumanMessage "Hello there"]) ++ [SonarCall "Hello there"]
  /\ trace (@chatbot answering state0 true (world_with [user_message "hello"])).2 =
     trace (world_with [user_message "hello"]) ++ [SonarCall "hello"].
Proof.
  split.
  - apply (proj1 (@casual_text_skips_search answering state0 false
                    (world_with [HumanMessage "Hello there"])
                    (HumanMessage "Hello there") eq_refl)).
    exists "hello". split; [right; left; reflexivity|].
    exists "", " there". reflexivity.
  - apply (proj2 (@casual_text_skips_search answering state0 true
                    (world_with [user_message "hello"])
                    (user_message "hello") eq_refl)).
    reflexivity.
Defined.

(** A question without a casual keyword, search enabled and answering. *)
Lemma informational_text_searches_once_first_witness :
  exists rest : list event,
    trace (@chatbot answering state0 true
             (world_with [user_message "What is the capital of France?"])).2 =
    [SearchInvoke "What is the capital of France?"] ++ rest
    /\ rest = [SonarCall (@SYSTEM_PROMPT "Paris is the capital of France."
                                         "What is the capital of France?")].
Proof.
  destruct (@informational_text_searches_once_first answering state0
              (world_with [user_message "What is the capital of France?"])
              (user_message "What is the capital of France?") eq_refl)
    as (rest & Htrace & _ & _ & Hrest).
  - intros Hkeyword. apply is_casual_occurs in Hkeyword. discriminate Hkeyword.
  - exists rest. split; [exact Htrace|]. apply Hrest. reflexivity.
Defined.

(** The same question while the search tool is down. *)
Lemma search_exception_leaves_chatbot_witness :
  @chatbot search_down state0 true
     (world_with [user_message "What is the capital of France?"]) =
  (Raise (Exn OtherException "search unavailable"),
   log (SearchInvoke "What is the capital of France?")
       (world_with [user_message "What is the capital of France?"])).
Proof.
  apply (@search_exception_leaves_chatbot search_down state0
           (world_with [user_message "What is the capital of France?"])
           (user_message "What is the capital of France?")
           (Exn OtherException "search unavailable"));
    reflexivity.
Defined.

(** A greeting while the completion endpoint rejects the key. *)
Lemma failed_turn_appends_error_message_witness :
  (@chat_turn sonar_down (Some "hello") true (world_with [])).1 = Ok tt
  /\ session_messages (@chat_turn sonar_down (Some "hello") true (world_with [])).2 =
     [] ++ [user_message "hello";
            assistant_message
              ("Sorry, I encountered an error: " +:+ "401 Client Error: Unauthorized")]
  /\ startswith "Sorry, I encountered an error:"
       ("Sorry, I encountered an error: " +:+ "401 Client Error: Unauthorized") = true.
Proof.
  apply (@failed_turn_appends_error_message sonar_down "hello" true (world_with [])
           [SonarCall "hello"] (SonarCall "hello")
           (Exn HTTPError "401 Client Error: Unauthorized")).
  - discriminate.
  - vm_compute. reflexivity.
  - left. reflexivity.
  - reflexivity.
Defined.

(** A first turn of a conversation. *)
Lemma turn_appends_user_then_assistant_witness :
  "hello" <> ""
  /\ length (session_messages
               (@chat_turn answering (Some "hello") true (world_with [])).2) =
     length (session_messages (world_with [])) + 2.
Proof.
  split; [discriminate|].
  destruct (@turn_appends_user_then_assistant answering "hello" true (world_with []))
    as (reply & ev & rest & _ & _ & Hlen & _).
  - discriminate.
  - exact Hlen.
Defined.

(** [chatbot] called on a list holding one greeting. *)
Lemma chatbot_appends_in_place_and_returns_witness :
  exists response_text : string,
    [assistant_message "The capital of France is Paris."] =
    [assistant_message response_text]
    /\ deref 0 (@chatbot answering state0 true (world_with [HumanMessage "hello"])).2 =
       [HumanMessage "hello"] ++ [assistant_message response_text].
Proof.
  destruct (@chatbot_appends_in_place_and_returns answering state0 true
              (world_with [HumanMessage "hello"])
              [assistant_message "The capital of France is Paris."]
              (@chatbot answering state0 true (world_with [HumanMessage "hello"])).2)
    as (response_text & Hupdate & Hlist & _).
  - vm_compute. reflexivity.
  - exists response_text. split; [exact Hupdate|exact Hlist].
Defined.

(** The client against an endpoint that answers and against one that
    rejects the key. *)
Lemma sonar_request_shape_and_result_witness :
  (Sonar.call_sonar_api "key" transport_ok "hello" []).1 = Ok (Sonar.JStr "Paris.")
  /\ exists e,
       (Sonar.call_sonar_api "key" transport_unauthorized "hello" []).1 = Raise e
       /\ exn_cls e = HTTPError.
Proof.
  split.
  - eapply (proj2 (proj2 (sonar_request_shape_and_result "key" transport_ok "hello" []))).
    + reflexivity.
    + cbn. lia.
    + reflexivity.
    + reflexivity.
    + reflexivity.
    + reflexivity.
  - eapply (proj1 (proj2 (sonar_request_shape_and_result "key" transport_unauthorized
                            "hello" []))).
    + reflexivity.
    + cbn. lia.
Defined.

(** * Further properties of the script *)

(** ** The classifier on short and on embedded texts *)

Lemma length_append (a b : string) :
  String.length (a +:+ b) = String.length a + String.length b.
Proof.
  induction a as [|x a IH]; [done|].
  rewrite append_cons. simpl. by rewrite IH.
Qed.

Lemma lower_length (s : string) : String.length (lower s) = String.length s.
Proof. induction s as [|c s IH]; simpl; [done|by rewrite IH]. Qed.

Lemma lower_append (a b : string) : lower (a +:+ b) = lower a +:+ lower b.
Proof.
  induction a as [|x a IH]; [done|].
  rewrite append_cons. simpl. by rewrite IH.
Qed.

Lemma occurs_in_length (word s : string) :
  occurs_in word s -> String.length word <= String.length s.
Proof. intros (pre & post & ->). rewrite !length_append. lia. Qed.

Lemma occurs_in_wrapped (word s a b : string) :
  occurs_in word s -> occurs_in word (a +:+ s +:+ b).
Proof.
  intros (pre & post & ->). exists (a +:+ pre), (post +:+ b).
  by rewrite !append_assoc.
Qed.

Lemma casual_keyword_length (word : string) :
  In word casual_keywords -> 2 <= String.length word.
Proof.
  unfold casual_keywords. simpl.
  intros [<-|[<-|[<-|[<-|[<-|[<-|[<-|[]]]]]]]]; simpl; lia.
Qed.

(** A text of fewer than two characters is never casual: every keyword
    has at least two. *)
Theorem short_text_is_not_casual (s : string) :
  String.length s < 2 -> is_casual s = false.
Proof.
  intros Hshort. destruct (is_casual s) eqn:Hcasual; [|done].
  apply is_casual_occurs in Hcasual as (word & Hin & Hocc).
  apply occurs_in_length in Hocc. rewrite lower_length in Hocc.
  apply casual_keyword_length in Hin. lia.
Qed.

(** A casual text stays casual whatever is written before and after it. *)
Theorem casual_text_stays_casual_when_wrapped (s before after : string) :
  is_casual s = true -> is_casual (before +:+ s +:+ after) = true.
Proof.
  intros (word & Hin & Hocc)%is_casual_occurs.
  apply is_casual_occurs. exists word. split; [done|].
  rewrite !lower_append. by apply occurs_in_wrapped.
Qed.

(** ** What [chatbot] changes, and when *)

Section DispatchFrame.

Context `{Collaborators}.

Implicit Types (state : State) (w : world) (m : message).

Lemma answer_events_returned flag q r evs :
  answer flag q = (Ok r, evs) ->
  exists earlier prompt,
    evs = earlier ++ [SonarCall prompt]
    /\ sonar_answer prompt = Ok r
    /\ (forall ev e, In ev earlier -> ~ raised_by ev e).
Proof.
  unfold answer. destruct (is_casual q || negb flag).
  - intros [= Hsonar <-]. exists [], q. split; [done|]. split; [done|].
    by intros ev e [].
  - destruct (search_answer q) as [sr|e0] eqn:Hsearch; [|done].
    intros [= Hsonar <-]. exists [SearchInvoke q], (SYSTEM_PROMPT sr q).
    split; [done|]. split; [done|].
    intros ev e [<-|[]]. simpl. by rewrite Hsearch.
Qed.

(** When [chatbot] raises, for whatever reason, no message has been
    appended: the store of lists and the conversation are as before. *)
Theorem chatbot_failure_appends_nothing state flag w e w' :
  chatbot state flag w = (Raise e, w') ->
  heap w' = heap w /\ session_messages w' = session_messages w.
Proof.
  intros Hrun.
  destruct (last (deref (messages state) w)) as [m|] eqn:Hlast; cycle 1.
  { apply last_None in Hlast. rewrite chatbot_empty in Hrun by done.
    by injection Hrun as _ <-. }
  rewrite (chatbot_run _ _ _ _ Hlast) in Hrun.
  destruct (answer flag (user_text m)) as [[r|e'] evs]; [done|].
  by injection Hrun as _ <-.
Qed.

(** [chatbot] writes to one list only, the one its state refers to:
    every other list object and the conversation of the session keep
    their contents, on success and on failure. *)
Theorem chatbot_touches_only_its_list state flag w (l : loc) :
  l <> messages state ->
  heap (chatbot state flag w).2 !! l = heap w !! l
  /\ session_messages (chatbot state flag w).2 = session_messages w.
Proof.
  intros Hother.
  destruct (last (deref (messages state) w)) as [m|] eqn:Hlast; cycle 1.
  { apply last_None in Hlast. by rewrite chatbot_empty. }
  rewrite (chatbot_run _ _ _ _ Hlast).
  destruct (answer flag (user_text m)) as [[r|e] evs]; [|done].
  cbn [snd heap session_messages]. by rewrite lookup_insert_ne.
Qed.

(** When [chatbot] returns, every outside call it made returned, the
    last of them is a completion call, and the returned assistant
    message carries the text of that completion, unchanged. *)
Theorem chatbot_returns_the_completion_text state flag w update w' :
  chatbot state flag w = (Ok update, w') ->
  exists (earlier : list event) (prompt response_text : string),
    trace w' = trace w ++ earlier ++ [SonarCall prompt]
    /\ sonar_answer prompt = Ok response_text
    /\ update = [assistant_message response_text]
    /\ (forall ev e, In ev earlier -> ~ raised_by ev e).
Proof.
  intros Hrun.
  destruct (last (deref (messages state) w)) as [m|] eqn:Hlast; cycle 1.
  { apply last_None in Hlast. by rewrite chatbot_empty in Hrun. }
  rewrite (chatbot_run _ _ _ _ Hlast) in Hrun.
  destruct (answer flag (user_text m)) as [[r|e] evs] eqn:Hanswer; [|done].
  injection Hrun as <- <-.
  destruct (answer_events_returned _ _ _ _ Hanswer)
    as (earlier & prompt & -> & Hsonar & Hearlier).
  by exists earlier, prompt, r.
Qed.

(** For a casual text the flag makes no difference to [chatbot]. *)
Theorem chatbot_flag_irrelevant_for_casual_text state w m :
  last (deref (messages state) w) = Some m ->
  is_casual (user_text m) = true ->
  chatbot state true w = chatbot state false w.
Proof.
  intros Hlast Hcasual. rewrite !(chatbot_run _ _ _ _ Hlast).
  unfold answer. by rewrite Hcasual.
Qed.

End DispatchFrame.

(** ** A turn, seen from the conversation *)

Lemma display_user_message (q : string) :
  display_entry (user_message q) = ("user", q).
Proof.
  unfold display_entry, user_message, role_content.
  by rewrite lookup_insert_ne, lookup_singleton_eq, lookup_insert_eq.
Qed.

Lemma display_assistant_message (r : string) :
  display_entry (assistant_message r) = ("assistant", r).
Proof.
  unfold display_entry, assistant_message, role_content.
  by rewrite lookup_insert_ne, lookup_singleton_eq, lookup_insert_eq.
Qed.

Section TurnEffects.

Context `{Collaborators}.

Implicit Types (w : world) (q : string).

(** What a turn appends and which calls it makes, for all worlds at
    once. *)
Lemma chat_turn_added submitted :
  exists (added : list message) (evs : list event),
    (added = [] \/ exists q reply, submitted = Some q /\ q <> ""
                   /\ added = [user_message q; assistant_message reply])
    /\ (submitted = None \/ submitted = Some "" -> added = [])
    /\ forall flag w,
         session_messages (chat_turn submitted flag w).2 = session_messages w ++ added
         /\ trace (chat_turn submitted flag w).2 = trace w ++ evs.
Proof.
  destruct submitted as [q|]; cycle 1.
  { exists [], []. split; [by left|]. split; [done|].
    intros flag w. simpl. by rewrite !app_nil_r. }
  destruct (decide (q = "")) as [->|Hq].
  { exists [], []. split; [by left|]. split; [done|].
    intros flag w. simpl. by rewrite !app_nil_r. }
  destruct (answer true q) as [[r|e] evs] eqn:Hanswer.
  - exists [user_message q; assistant_message r], evs.
    split; [right; by exists q, r|]. split; [by intros [|[= ->]]|].
    intros flag w. by rewrite chat_turn_run, Hanswer.
  - exists [user_message q;
            assistant_message ("Sorry, I encountered an error: " +:+ exn_str e)], evs.
    split; [right; by eexists q, _|]. split; [by intros [|[= ->]]|].
    intros flag w. by rewrite chat_turn_run, Hanswer.
Qed.

(** A turn does not look at the conversation so far: the calls it makes
    and the two messages it appends are the same whatever was said
    before. *)
Theorem turn_is_independent_of_history q flag :
  q <> "" ->
  exists (evs : list event) (reply : string),
    forall w,
      trace (chat_turn (Some q) flag w).2 = trace w ++ evs
      /\ session_messages (chat_turn (Some q) flag w).2 =
         session_messages w ++ [user_message q; assistant_message reply].
Proof.
  intros Hq.
  destruct (chat_turn_added (Some q)) as (added & evs & Hshape & _ & Hrun).
  destruct Hshape as [->|(q' & reply & [= <-] & _ & ->)].
  - exfalso. destruct (Hrun flag (World ∅ [] [])) as [Hsession _].
    rewrite chat_turn_run in Hsession by done.
    by destruct (answer true q) as [[r|e] evs'].
  - exists evs, reply. intros w. by destruct (Hrun flag w).
Qed.

(** A run of the handler leaves the world as it found it exactly when no
    non-empty text was submitted. *)
Theorem turn_is_idle_iff_nothing_submitted submitted flag w :
  (chat_turn submitted flag w).2 = w <-> submitted = None \/ submitted = Some "".
Proof.
  split; [|by intros [->| ->]].
  destruct submitted as [q|]; [|by left].
  destruct (decide (q = "")) as [->|Hq]; [by right|].
  intros Hidle. exfalso.
  apply (f_equal session_messages), (f_equal length) in Hidle.
  rewrite chat_turn_run in Hidle by done.
  destruct (answer true q) as [[r|e] evs]; cbn [snd session_messages] in Hidle;
    rewrite length_app in Hidle; simpl in Hidle; lia.
Qed.

(** After a turn the history loop draws what it drew before, then a
    user bubble with the submitted text and an assistant bubble with the
    reply or the error text. *)
Theorem history_after_turn_shows_both_messages q flag w :
  q <> "" ->
  exists reply : string,
    session_messages (chat_turn (Some q) flag w).2 =
    session_messages w ++ [user_message q; assistant_message reply]
    /\ display_history (session_messages (chat_turn (Some q) flag w).2) =
       display_history (session_messages w) ++ [("user", q); ("assistant", reply)].
Proof.
  intros Hq. rewrite chat_turn_run by done.
  destruct (answer true q) as [[r|e] evs]; cbn [snd session_messages];
    eexists; (split; [reflexivity|]);
    unfold display_history; rewrite map_app; cbn [map];
    by rewrite display_user_message, display_assistant_message.
Qed.

(** The text [chatbot] works on is the text the history loop shows for
    the same message, except for an [AIMessage], where [chatbot] takes
    [str()] of the object and the loop its content. *)
Theorem user_text_is_displayed_text :
  (forall m : message,
      (forall content, m <> AIMessage content) ->
      user_text m = (display_entry m).2)
  /\ (forall content : string,
        user_text (AIMessage content) = str_AIMessage content
        /\ (display_entry (AIMessage content)).2 = content)
  /\ (forall content : string,
        user_text (AIMessage content) = (display_entry (AIMessage content)).2 <->
        str_AIMessage content = content).
Proof.
  split; [|split].
  - intros m Hm. destruct m as [c|c|d|t]; [done| |done|done].
    by destruct (Hm c).
  - done.
  - done.
Qed.

End TurnEffects.

(** ** Sessions *)

Lemma handle_never_raises (i : interaction) (w : world) : (handle i w).1 = Ok tt.
Proof. destruct i; [apply chat_turn_never_raises|done]. Qed.

Lemma chat_session_cons (i : interaction) (rest : list interaction) (w : world) :
  chat_session (i :: rest) w = chat_session rest (handle i w).2.
Proof.
  cbn [chat_session]. unfold bind.
  pose proof (handle_never_raises i w) as Hok.
  destruct (handle i w) as [[[]|e] w1]; [done|discriminate].
Qed.

(** What one interaction does to the conversation, for all worlds at
    once: it empties it or keeps it, then appends. *)
Lemma handle_session (i : interaction) :
  exists (reset : bool) (pairs : list (string * string)),
    reset = is_clear i
    /\ length pairs = (if is_submission i then 1 else 0)
    /\ forall w, session_messages (handle i w).2 =
                 (if reset then [] else session_messages w) ++ conversation_of pairs.
Proof.
  destruct i as [services submitted flag|]; cycle 1.
  { exists true, []. by repeat split. }
  destruct (@chat_turn_added services submitted)
    as (added & evs & Hshape & Hidle & Hrun).
  exists false.
  destruct Hshape as [->|(q & reply & -> & Hq & ->)].
  - exists []. split; [done|]. split.
    + destruct submitted as [q|]; [|done]. cbn.
      destruct q; [done|]. exfalso.
      destruct (Hrun true (World ∅ [] [])) as [Hsession _].
      apply (f_equal length) in Hsession.
      rewrite (@chat_turn_run services) in Hsession by done.
      destruct (@answer services true _) as [[r|e] evs'];
        cbn [snd session_messages] in Hsession; simpl in Hsession; lia.
    + intros w. by destruct (Hrun flag w).
  - exists [(q, reply)]. split; [done|]. split.
    + cbn. by destruct q.
    + intros w. by destruct (Hrun flag w).
Qed.

(** No sequence of interactions makes the script raise. *)
Theorem chat_session_never_raises (interactions : list interaction) (w : world) :
  (chat_session interactions w).1 = Ok tt.
Proof.
  revert w; induction interactions as [|i rest IH]; intros w; [done|].
  by rewrite chat_session_cons.
Qed.

(** As long as the clear button is not pressed the conversation only
    grows at its end, by two messages for every non-empty submission. *)
Theorem conversation_is_append_only (interactions : list interaction) (w : world) :
  forallb (fun i => negb (is_clear i)) interactions = true ->
  exists added : list message,
    session_messages (chat_session interactions w).2 = session_messages w ++ added
    /\ length added = 2 * length (List.filter is_submission interactions).
Proof.
  revert w; induction interactions as [|i rest IH]; intros w Hclears.
  { exists []. by rewrite app_nil_r. }
  cbn [forallb] in Hclears. apply andb_true_iff in Hclears as [Hi Hrest].
  rewrite chat_session_cons.
  destruct (IH (handle i w).2 Hrest) as (added & -> & Hlen).
  destruct (handle_session i) as (reset & pairs & -> & Hpairs & ->).
  apply negb_true_iff in Hi. rewrite Hi.
  exists (conversation_of pairs ++ added). split; [by rewrite app_assoc|].
  rewrite length_app, Hlen. cbn [List.filter].
  destruct (is_submission i); destruct pairs as [|[q a] [|]]; simpl in *; lia.
Qed.

(** A conversation made of question and reply pairs stays one under
    every interaction, and the history loop draws it as alternating
    user and assistant bubbles carrying those texts. *)
Theorem conversation_stays_paired (interactions : list interaction) (w : world)
        (pairs : list (string * string)) :
  session_messages w = conversation_of pairs ->
  exists pairs' : list (string * string),
    session_messages (chat_session interactions w).2 = conversation_of pairs'
    /\ display_history (conversation_of pairs') =
       flat_map (fun '(question, reply) => [("user", question); ("assistant", reply)])
                pairs'.
Proof.
  assert (Happ : forall ps qs,
             conversation_of (ps ++ qs) = conversation_of ps ++ conversation_of qs).
  { induction ps as [|[q a] ps IHps]; intros qs; simpl; [done|]. by rewrite IHps. }
  assert (Hshow : forall ps,
             display_history (conversation_of ps) =
             flat_map (fun '(question, reply) => [("user", question); ("assistant", reply)])
                      ps).
  { induction ps as [|[q a] ps IHps]; [done|].
    cbn [conversation_of flat_map]. unfold display_history in *. cbn [map].
    by rewrite display_user_message, display_assistant_message, IHps. }
  revert w pairs; induction interactions as [|i rest IH]; intros w pairs Hw.
  { exists pairs. by split. }
  rewrite chat_session_cons.
  destruct (handle_session i) as (reset & new & _ & _ & Hstep).
  apply (IH _ (if reset then new else pairs ++ new)).
  rewrite Hstep, Hw. destruct reset; [done|]. by rewrite Happ.
Qed.

Lemma chat_session_conversation_determined
      (interactions : list interaction) (w1 w2 : world) :
  session_messages w1 = session_messages w2 ->
  session_messages (chat_session interactions w1).2 =
  session_messages (chat_session interactions w2).2.
Proof.
  revert w1 w2; induction interactions as [|i rest IH]; intros w1 w2 Hsame; [done|].
  rewrite !chat_session_cons. apply IH.
  destruct (handle_session i) as (reset & new & _ & _ & Hstep).
  by rewrite !Hstep, Hsame.
Qed.

(** Pressing the clear button forgets the conversation altogether: what
    the conversation holds after later interactions does not depend on
    anything said before the button was pressed. *)
Theorem clear_forgets_the_past (interactions : list interaction) (w1 w2 : world) :
  session_messages (chat_session (ClearHistory :: interactions) w1).2 =
  session_messages (chat_session (ClearHistory :: interactions) w2).2.
Proof.
  rewrite !chat_session_cons. by apply chat_session_conversation_determined.
Qed.

(** ** The completion client on failures *)

Section SonarFailures.

Import Sonar.

Variable api_key : string.
Variable transport : request -> outcome response.

Lemma obind_ok {A B} (o : outcome A) (k : A -> outcome B) (b : B) :
  obind o k = Ok b -> exists a, o = Ok a /\ k a = Ok b.
Proof. destruct o as [a|e]; [by exists a|done]. Qed.

Lemma getitem_ok (j : json) (key : string) (v : json) :
  getitem j key = Ok v -> exists fields, j = JDict fields /\ fields !! key = Some v.
Proof.
  destruct j as [| | | | |items|fields]; try done. simpl.
  destruct (fields !! key) as [v'|] eqn:Hkey; [|done].
  intros [= <-]. by exists fields.
Qed.

Lemma raise_for_status_ok (r : response) :
  raise_for_status r = Ok tt -> ~ (400 <= status_code r < 600)%Z.
Proof.
  unfold raise_for_status. repeat case_bool_decide; try done. lia.
Qed.

(** When the network raises for whatever is sent, the client raises the
    same exception after a single attempt. *)
Theorem sonar_network_failure_propagates (prompt : string) (sent : list request) (e : exn) :
  (forall r, transport r = Raise e) ->
  (call_sonar_api api_key transport prompt sent).1 = Raise e
  /\ length (call_sonar_api api_key transport prompt sent).2 = length sent + 1.
Proof.
  intros Hdown. unfold call_sonar_api, requests_post. rewrite Hdown.
  cbn [fst snd]. split; [done|]. rewrite length_app. simpl. lia.
Qed.

(** An answer with a passing status whose body is not of the expected
    form makes the client raise: the exception of the JSON parser when
    the body is not JSON, [KeyError] when the object has no [choices],
    [IndexError] when [choices] is an empty list. *)
Theorem sonar_malformed_answer_raises (prompt : string) (sent : list request)
        (answer : response) :
  (forall r, transport r = Ok answer) ->
  ~ (400 <= status_code answer < 600)%Z ->
  (forall e, json_result answer = Raise e ->
             (call_sonar_api api_key transport prompt sent).1 = Raise e)
  /\ (forall body, json_result answer = Ok (JDict body) ->
                   body !! "choices" = None ->
                   (call_sonar_api api_key transport prompt sent).1 =
                   Raise (Exn KeyError "'choices'"))
  /\ (forall body, json_result answer = Ok (JDict body) ->
                   body !! "choices" = Some (JList []) ->
                   (call_sonar_api api_key transport prompt sent).1 =
                   Raise (Exn IndexError "list index out of range")).
Proof.
  intros Hanswer Hcode. unfold call_sonar_api, requests_post.
  rewrite Hanswer. cbn [fst]. rewrite raise_for_status_pass by done.
  split; [by intros e ->|].
  split; intros body -> Hchoices; cbn [obind getitem]; by rewrite Hchoices.
Qed.

(** The client returns a value only in one way: the request was
    answered, the status is neither 4xx nor 5xx, and the value sits at
    [choices][0][message][content] of the JSON body, [choices] being a
    list and the other three levels objects. *)
Theorem sonar_result_comes_from_the_body (prompt : string) (sent : list request)
        (v : json) :
  (call_sonar_api api_key transport prompt sent).1 = Ok v ->
  exists request answer body choice others message,
    (call_sonar_api api_key transport prompt sent).2 = sent ++ [request]
    /\ transport request = Ok answer
    /\ ~ (400 <= status_code answer < 600)%Z
    /\ json_result answer = Ok (JDict body)
    /\ body !! "choices" = Some (JList (JDict choice :: others))
    /\ choice !! "message" = Some (JDict message)
    /\ message !! "content" = Some v.
Proof.
  unfold call_sonar_api, requests_post.
  set (request := {| url := _; headers := _; json_body := _ |}).
  destruct (transport request) as [answer|e] eqn:Htransport; [|done].
  cbn [fst snd]. intros Hrun.
  apply obind_ok in Hrun as ([] & Hstatus & Hrun).
  apply obind_ok in Hrun as (parsed & Hjson & Hrun).
  apply obind_ok in Hrun as (choices & Hchoices & Hrun).
  apply obind_ok in Hrun as (first & Hfirst & Hrun).
  apply obind_ok in Hrun as (message_value & Hmessage & Hcontent).
  apply getitem_ok in Hchoices as (body & -> & Hchoices).
  apply getitem_ok in Hmessage as (choice & -> & Hmessage).
  apply getitem_ok in Hcontent as (message & -> & Hcontent).
  assert (exists others, choices = JList (JDict choice :: others)) as [others ->].
  { destruct choices as [| | | |[|c s]|[|x items]|fields]; try done.
    simpl in Hfirst. injection Hfirst as ->. by exists items. }
  exists request, answer, body, choice, others, message.
  repeat split; try done. by apply raise_for_status_ok.
Qed.

(** The prompt can be read back from the request body at
    [messages][0][content], under the role user; bodies built from
    different prompts differ. *)
Theorem sonar_body_carries_the_prompt (prompt : string) :
  obind (getitem (data prompt) "messages") (fun items =>
  obind (getitem0 items) (fun first => getitem first "content")) = Ok (JStr prompt)
  /\ obind (getitem (data prompt) "messages") (fun items =>
     obind (getitem0 items) (fun first => getitem first "role")) = Ok (JStr "user")
  /\ (forall other, data prompt = data other -> prompt = other).
Proof.
  assert (Hread : forall p,
            obind (getitem (data p) "messages") (fun items =>
            obind (getitem0 items) (fun first => getitem first "content"))
            = Ok (JStr p)) by done.
  split; [apply Hread|]. split; [done|].
  intros other Hsame. pose proof (Hread prompt) as Hprompt.
  rewrite Hsame, Hread in Hprompt. by injection Hprompt.
Qed.

End SonarFailures.

(** ** The API key *)

Lemma truthy_true (s : string) : truthy s = true <-> s <> "".
Proof. by destruct s. Qed.

(** The four situations of the gate: the variable holds a non-empty
    key, or it is absent or empty and the password field is filled or
    not. *)
Lemma load_api_key_cases (environ : gmap string string) (api_input : string) :
  (exists k, environ !! PERPLEXITY_API_KEY = Some k /\ k <> ""
             /\ load_api_key environ api_input = (environ, Some k))
  \/ ((environ !! PERPLEXITY_API_KEY = None \/ environ !! PERPLEXITY_API_KEY = Some "")
      /\ api_input <> ""
      /\ load_api_key environ api_input =
         (<[PERPLEXITY_API_KEY := api_input]> environ, Some api_input))
  \/ ((environ !! PERPLEXITY_API_KEY = None \/ environ !! PERPLEXITY_API_KEY = Some "")
      /\ api_input = ""
      /\ load_api_key environ api_input = (environ, None)).
Proof.
  unfold load_api_key.
  destruct (environ !! PERPLEXITY_API_KEY) as [[|c k]|] eqn:Henv; simpl.
  - right. destruct api_input as [|c input]; simpl.
    + right. rewrite Henv. by auto.
    + left. rewrite lookup_insert_eq. by auto.
  - left. exists (String c k). by rewrite Henv.
  - right. destruct api_input as [|c input]; simpl.
    + right. rewrite Henv. by auto.
    + left. rewrite lookup_insert_eq. by auto.
Qed.

(** The script goes on only with a non-empty key, and that key is then
    the value of the environment variable. *)
Theorem api_key_in_use_is_not_empty (environ environ' : gmap string string)
        (api_input api_key : string) :
  load_api_key environ api_input = (environ', Some api_key) ->
  api_key <> "" /\ environ' !! PERPLEXITY_API_KEY = Some api_key.
Proof.
  destruct (load_api_key_cases environ api_input)
    as [(k & Henv & Hk & ->)|[(_ & Hinput & ->)|(_ & _ & ->)]];
    intros [= <- <-]; [done|].
  split; [done|]. apply lookup_insert_eq.
Qed.

(** A non-empty key already in the environment is used as it is: the
    password field is not consulted and the environment is not changed. *)
Theorem api_key_from_environment_wins (environ : gmap string string)
        (api_input api_key : string) :
  environ !! PERPLEXITY_API_KEY = Some api_key ->
  api_key <> "" ->
  load_api_key environ api_input = (environ, Some api_key).
Proof.
  intros Henv Hkey.
  destruct (load_api_key_cases environ api_input)
    as [(k & Henv' & _ & ->)|[([Hnone|Hempty] & _)|([Hnone|Hempty] & _)]];
    congruence.
Qed.

(** The script stops exactly when the password field is empty and the
    environment holds no key or an empty one. *)
Theorem api_key_gate_stops_iff (environ : gmap string string) (api_input : string) :
  (load_api_key environ api_input).2 = None <->
  api_input = ""
  /\ (environ !! PERPLEXITY_API_KEY = None \/ environ !! PERPLEXITY_API_KEY = Some "").
Proof.
  destruct (load_api_key_cases environ api_input)
    as [(k & Henv & Hk & ->)|[(Henv & Hinput & ->)|(Henv & Hinput & ->)]];
    cbn [snd]; split; try done.
  - intros [_ [Hnone|Hempty]]; congruence.
  - by intros [? _].
Qed.

(** Once the script has gone on with a key, every later run goes on
    with the same key and leaves the environment alone, whatever the
    password field holds then. *)
Theorem api_key_persists_across_runs (environ environ' : gmap string string)
        (api_input api_key later_input : string) :
  load_api_key environ api_input = (environ', Some api_key) ->
  load_api_key environ' later_input = (environ', Some api_key).
Proof.
  intros Hfirst.
  assert (api_key <> "" /\ environ' !! PERPLEXITY_API_KEY = Some api_key)
    as [Hkey Henv].
  { destruct (load_api_key_cases environ api_input)
      as [(k & Hk & Hne & Hrun)|[(_ & Hne & Hrun)|(_ & _ & Hrun)]];
      rewrite Hrun in Hfirst; simplify_eq; [done|].
    split; [done|]. apply lookup_insert_eq. }
  destruct (load_api_key_cases environ' later_input)
    as [(k & Henv' & _ & ->)|[([Hnone|Hempty] & _)|([Hnone|Hempty] & _)]];
    congruence.
Qed.

(** No other environment variable is touched. *)
Theorem api_key_gate_keeps_other_variables (environ : gmap string string)
        (api_input name : string) :
  name <> PERPLEXITY_API_KEY ->
  (load_api_key environ api_input).1 !! name = environ !! name.
Proof.
  intros Hname.
  destruct (load_api_key_cases environ api_input)
    as [(k & _ & _ & ->)|[(_ & _ & ->)|(_ & _ & ->)]]; cbn [fst]; try done.
  by rewrite lookup_insert_ne.
Qed.

(** * The further properties on sample runs *)

(** The flag off, on a question that would otherwise be searched. *)
Lemma chatbot_search_disabled_witness :
  trace (@chatbot answering state0 false
           (world_with [user_message "What is the capital of France?"])).2 =
  [] ++ [SonarCall "What is the capital of France?"].
Proof.
  apply (@chatbot_search_disabled answering state0
           (world_with [user_message "What is the capital of France?"])
           (user_message "What is the capital of France?")).
  reflexivity.
Defined.

(** The search tool down: nothing is appended. *)
Lemma chatbot_failure_appends_nothing_witness :
  heap (@chatbot search_down state0 true
          (world_with [user_message "What is the capital of France?"])).2 =
  heap (world_with [user_message "What is the capital of France?"])
  /\ session_messages
       (@chatbot search_down state0 true
          (world_with [user_message "What is the capital of France?"])).2 =
     session_messages (world_with [user_message "What is the capital of France?"]).
Proof.
  apply (@chatbot_failure_appends_nothing search_down state0 true _
           (Exn OtherException "search unavailable")).
  reflexivity.
Defined.

(** A second list object next to the one of the state. *)
Lemma chatbot_touches_only_its_list_witness :
  heap (@chatbot answering state0 true
          (World {[ 0 := [HumanMessage "hello"]; 1 := [HumanMessage "kept"] ]} [] [])).2
    !! 1 =
  heap (World {[ 0 := [HumanMessage "hello"]; 1 := [HumanMessage "kept"] ]} [] []) !! 1
  /\ session_messages
       (@chatbot answering state0 true
          (World {[ 0 := [HumanMessage "hello"]; 1 := [HumanMessage "kept"] ]} [] [])).2 =
     session_messages
       (World {[ 0 := [HumanMessage "hello"]; 1 := [HumanMessage "kept"] ]} [] []).
Proof.
  apply (@chatbot_touches_only_its_list answering state0 true _ 1).
  discriminate.
Defined.

(** A searched question, answered. *)
Lemma chatbot_returns_the_completion_text_witness :
  exists (earlier : list event) (prompt response_text : string),
    trace (@chatbot answering state0 true
             (world_with [user_message "What is the capital of France?"])).2 =
    [] ++ earlier ++ [SonarCall prompt]
    /\ @sonar_answer answering prompt = Ok response_text
    /\ [assistant_message "The capital of France is Paris."] =
       [assistant_message response_text]
    /\ (forall ev e, In ev earlier -> ~ @raised_by answering ev e).
Proof.
  apply (@chatbot_returns_the_completion_text answering state0 true
           (world_with [user_message "What is the capital of France?"])).
  reflexivity.
Defined.

(** A greeting, with the flag on and off. *)
Lemma chatbot_flag_irrelevant_for_casual_text_witness :
  @chatbot answering state0 true (world_with [HumanMessage "hello"]) =
  @chatbot answering state0 false (world_with [HumanMessage "hello"]).
Proof.
  apply (@chatbot_flag_irrelevant_for_casual_text answering state0 _
           (HumanMessage "hello")); reflexivity.
Defined.

(** A single question mark. *)
Lemma short_text_is_not_casual_witness : is_casual "?" = false.
Proof. apply short_text_is_not_casual. simpl. lia. Defined.

(** A greeting inside a longer sentence. *)
Lemma casual_text_stays_casual_when_wrapped_witness :
  is_casual ("Well, " +:+ "Hello" +:+ " my friend") = true.
Proof. apply casual_text_stays_casual_when_wrapped. reflexivity. Defined.

(** A greeting, whatever the conversation before it. *)
Lemma turn_is_independent_of_history_witness :
  exists (evs : list event) (reply : string),
    forall w,
      trace (@chat_turn answering (Some "hello") true w).2 = trace w ++ evs
      /\ session_messages (@chat_turn answering (Some "hello") true w).2 =
         session_messages w ++ [user_message "hello"; assistant_message reply].
Proof. apply (@turn_is_independent_of_history answering). discriminate. Defined.

(** The bubbles after a first greeting. *)
Lemma history_after_turn_shows_both_messages_witness :
  exists reply : string,
    session_messages (@chat_turn answering (Some "hello") true (world_with [])).2 =
    [] ++ [user_message "hello"; assistant_message reply]
    /\ display_history
         (session_messages (@chat_turn answering (Some "hello") true (world_with [])).2) =
       display_history [] ++ [("user", "hello"); ("assistant", reply)].
Proof.
  apply (@history_after_turn_shows_both_messages answering "hello" true (world_with [])).
  discriminate.
Defined.

(** A dict without a content key. *)
Lemma user_text_is_displayed_text_witness :
  @user_text answering (DictMsg {[ "role" := "user" ]}) =
  (display_entry (DictMsg {[ "role" := "user" ]})).2.
Proof.
  apply (proj1 (@user_text_is_displayed_text answering)). discriminate.
Defined.

(** A greeting, a question while the completion endpoint is down, and
    an idle run. *)
Lemma conversation_is_append_only_witness :
  exists added : list message,
    session_messages
      (chat_session [Submit answering (Some "hello") true;
                     Submit sonar_down (Some "What is the capital of France?") false;
                     Submit answering None true] (world_with [])).2 =
    session_messages (world_with []) ++ added
    /\ length added =
       2 * length (List.filter is_submission
                     [Submit answering (Some "hello") true;
                      Submit sonar_down (Some "What is the capital of France?") false;
                      Submit answering None true]).
Proof. apply conversation_is_append_only. reflexivity. Defined.

(** A greeting, the clear button, and a question, from an empty
    conversation. *)
Lemma conversation_stays_paired_witness :
  exists pairs' : list (string * string),
    session_messages
      (chat_session [Submit answering (Some "hello") true; ClearHistory;
                     Submit search_down (Some "What is the capital of France?") true]
                    (world_with [])).2 = conversation_of pairs'
    /\ display_history (conversation_of pairs') =
       flat_map (fun '(question, reply) => [("user", question); ("assistant", reply)])
                pairs'.
Proof. apply (conversation_stays_paired _ (world_with []) []). reflexivity. Defined.

(** The graph run of a greeting. *)
Lemma graph_invoke_result_witness :
  exists r,
    [HumanMessage "hello"; AIMessage "The capital of France is Paris.";
     AIMessage "The capital of France is Paris."] =
    [HumanMessage "hello"; AIMessage r; AIMessage r].
Proof.
  apply (@graph_invoke_result answering "hello" true (world_with [])).
  vm_compute. reflexivity.
Defined.

(** The client while the network refuses every connection. *)
Lemma sonar_network_failure_propagates_witness :
  (Sonar.call_sonar_api "key"
     (fun _ => Raise (Exn OtherException "connection refused")) "hello" []).1 =
  Raise (Exn OtherException "connection refused")
  /\ length (Sonar.call_sonar_api "key"
               (fun _ => Raise (Exn OtherException "connection refused")) "hello" []).2 =
     length (@nil Sonar.request) + 1.
Proof. apply sonar_network_failure_propagates. reflexivity. Defined.

(** The client against an endpoint that answers 200 with an empty
    object. *)
Lemma sonar_malformed_answer_raises_witness :
  (Sonar.call_sonar_api "key"
     (fun _ => Ok {| Sonar.status_code := 200; Sonar.reason := "OK";
                     Sonar.response_url := "";
                     Sonar.json_result := Ok (Sonar.JDict ∅) |}) "hello" []).1 =
  Raise (Exn KeyError "'choices'").
Proof.
  pose (answer := {| Sonar.status_code := 200; Sonar.reason := "OK";
                     Sonar.response_url := "";
                     Sonar.json_result := Ok (Sonar.JDict ∅) |}).
  assert (Hcode : ~ (400 <= Sonar.status_code answer < 600)%Z) by (cbn; lia).
  apply (proj1 (proj2 (sonar_malformed_answer_raises
                         "key" (fun _ => Ok answer) "hello" [] answer
                         (fun _ => eq_refl) Hcode)) ∅);
    reflexivity.
Defined.

(** The value returned against the answering endpoint. *)
Lemma sonar_result_comes_from_the_body_witness :
  exists request answer body choice others message,
    (Sonar.call_sonar_api "key" transport_ok "hello" []).2 = [] ++ [request]
    /\ transport_ok request = Ok answer
    /\ ~ (400 <= Sonar.status_code answer < 600)%Z
    /\ Sonar.json_result answer = Ok (Sonar.JDict body)
    /\ body !! "choices" = Some (Sonar.JList (Sonar.JDict choice :: others))
    /\ choice !! "message" = Some (Sonar.JDict message)
    /\ message !! "content" = Some (Sonar.JStr "Paris.").
Proof. apply sonar_result_comes_from_the_body. reflexivity. Defined.

(** A first run with an empty environment and a key typed in, and a
    later run. *)
Lemma api_key_in_use_is_not_empty_witness :
  "pplx-key" <> ""
  /\ (<[PERPLEXITY_API_KEY := "pplx-key"]> (∅ : gmap string string))
       !! PERPLEXITY_API_KEY = Some "pplx-key".
Proof.
  apply (api_key_in_use_is_not_empty ∅ _ "pplx-key" "pplx-key"). reflexivity.
Defined.

Lemma api_key_from_environment_wins_witness :
  load_api_key {[ PERPLEXITY_API_KEY := "pplx-key" ]} "another" =
  ({[ PERPLEXITY_API_KEY := "pplx-key" ]}, Some "pplx-key").
Proof. apply api_key_from_environment_wins; [reflexivity|discriminate]. Defined.

Lemma api_key_persists_across_runs_witness :
  load_api_key (<[PERPLEXITY_API_KEY := "pplx-key"]> ∅) "" =
  (<[PERPLEXITY_API_KEY := "pplx-key"]> ∅, Some "pplx-key").
Proof. apply (api_key_persists_across_runs ∅ _ "pplx-key"). reflexivity. Defined.

Lemma api_key_gate_keeps_other_variables_witness :
  (load_api_key {[ "HOME" := "/root" ]} "pplx-key").1 !! "HOME" =
  ({[ "HOME" := "/root" ]} : gmap string string) !! "HOME".
Proof. apply api_key_gate_keeps_other_variables. discriminate. Defined.

